(** * memlink: a mutable, non-owning view over a block of memory

    A shallow embedding of [src/memlink.cc] (ustl) and the properties of
    its operations.  Addresses and [size_t] values are binary naturals,
    the memory is a total map from addresses to bytes, and a call ends in
    one of three ways: it returns, an [assert] of the diagnostic build
    fails, or it runs into behaviour the language leaves undefined.
    Every subtraction of the code comes after an assertion or a [min]
    that keeps it from going below zero, so the truncated subtraction of
    [N] agrees with the code's wherever the code gets to it. *)

From Stdlib Require Import Arith NArith List Bool Lia.
From Stdlib Require Import Strings.Byte.
From Stdlib Require Import Sorting.Permutation.
Import ListNotations.
Open Scope N_scope.

(** ** Outcomes of a call *)

(** What the language leaves undefined and the model keeps apart. *)
Inductive fault : Type :=
| NullAccess    (* at least one byte read or written through NULL *)
| Overlap       (* memcpy between regions that overlap *)
| StreamEnd.    (* the stream is asked for more bytes than it holds *)

(** [AssertFailed l] is the failure of the [assert] on line [l] of
    memlink.cc. *)
Inductive outcome (A : Type) : Type :=
| Done (a : A)
| AssertFailed (line : N)
| Undefined (f : fault).

Arguments Done {A} a.
Arguments AssertFailed {A} line.
Arguments Undefined {A} f.

Definition bind {A B : Type} (c : outcome A) (k : A -> outcome B) : outcome B :=
  match c with
  | Done a => k a
  | AssertFailed l => AssertFailed l
  | Undefined f => Undefined f
  end.

(** [assert (cond)] on line [l]. *)
Definition assert (cond : bool) (line : N) : outcome unit :=
  if cond then Done tt else AssertFailed line.

Declare Scope outcome_scope.
Delimit Scope outcome_scope with outcome.
Notation "x <- c ;; k" := (bind c (fun x => k))
  (at level 61, c at next level, right associativity) : outcome_scope.
Notation "' p <- c ;; k" := (bind c (fun x => let p := x in k))
  (at level 61, p pattern, c at next level, right associativity) : outcome_scope.
Notation "c ;;; k" := (bind c (fun _ => k))
  (at level 61, right associativity) : outcome_scope.
Open Scope outcome_scope.

(** ** Memory *)

Definition address : Type := N.
Definition NULL : address := 0.

(** A pointer or a count used as a condition, as in [p && n]. *)
Definition nonzero (x : N) : bool := negb (x =? 0).

Definition mem : Type := address -> byte.

(** The [n] bytes at [p]. *)
Definition load_bytes (m : mem) (p : address) (n : nat) : list byte :=
  map (fun i => m (p + N.of_nat i)) (seq 0 n).

(** The memory with the bytes [l] written at [p]. *)
Definition store_bytes (m : mem) (p : address) (l : list byte) : mem :=
  fun a =>
    if (p <=? a) && (a <? p + N.of_nat (length l))
    then nth (N.to_nat (a - p)) l x00
    else m a.

(** [*reinterpret_cast<const u_char*>(p)] *)
Definition deref (m : mem) (p : address) : outcome byte :=
  if p =? NULL then Undefined NullAccess else Done (m p).

(** [memcpy (dst, src, n)] of <string.h>: nothing for [n = 0]; otherwise
    both pointers must be valid and the regions must not overlap. *)
Definition memcpy (m : mem) (dst src : address) (n : N) : outcome mem :=
  if n =? 0 then Done m
  else if (dst =? NULL) || (src =? NULL) then Undefined NullAccess
  else if (dst <? src + n) && (src <? dst + n) then Undefined Overlap
  else Done (store_bytes m dst (load_bytes m src (N.to_nat n))).

(** [memset (dst, c, n)] of <string.h>. *)
Definition memset (m : mem) (dst : address) (c : byte) (n : N) : outcome mem :=
  if n =? 0 then Done m
  else if dst =? NULL then Undefined NullAccess
  else Done (store_bytes m dst (repeat c (N.to_nat n))).

(** Modelled from the spec: [rotate (first, middle, last)] of ualgo.h, the
    rotation the view consumes as a capability.  The bytes of
    [middle, last) move to [first] and the bytes of [first, middle) follow
    them; a rotation by nothing, or by the whole range, moves no byte. *)
Definition rotate (m : mem) (first middle last : address) : outcome mem :=
  if (first =? middle) || (middle =? last) then Done m
  else if first =? NULL then Undefined NullAccess
  else
    let l := load_bytes m first (N.to_nat (last - first)) in
    let k := N.to_nat (middle - first) in
    Done (store_bytes m first (skipn k l ++ firstn k l)).

(** [size_t] is taken 64 bits wide (an LP64 target); a product of two
    sizes wraps. *)
Definition size_t_bits : N := 64.
Definition size_t_mul (a b : N) : N := (a * b) mod 2 ^ size_t_bits.

(** ** The stream *)

(** Modelled from the spec: the stream of mistream.h, consumed as a
    capability: read an unsigned integer, read [n] raw bytes into a
    buffer, skip [n] bytes, align the cursor to the stream's boundary.
    The spec fixes neither the width nor the byte order of the integer,
    nor the boundary, so a stream carries them as its format. *)
Record stream_format : Type := {
  sf_width : N;                   (* bytes of a serialized integer *)
  sf_decode : list byte -> N;     (* its value *)
  sf_grain : positive             (* the boundary the cursor is aligned to *)
}.

Record istream : Type := {
  is_format : stream_format;
  is_data : list byte;
  is_pos : N
}.

(** Modelled from the spec: the bytes left after the cursor, and the
    cursor moved on by [n]. *)
Definition remaining (s : istream) : N := N.of_nat (length (is_data s)) - is_pos s.

(** Modelled from the spec: the next [n] bytes under the cursor. *)
Definition peek (s : istream) (n : N) : list byte :=
  firstn (N.to_nat n) (skipn (N.to_nat (is_pos s)) (is_data s)).

Definition advance (s : istream) (n : N) : istream :=
  {| is_format := is_format s; is_data := is_data s; is_pos := is_pos s + n |}.

(** Modelled from the spec: [is >> n], read an unsigned integer. *)
Definition stream_read_size (s : istream) : outcome (N * istream) :=
  let w := sf_width (is_format s) in
  if remaining s <? w then Undefined StreamEnd
  else Done (sf_decode (is_format s) (peek s w), advance s w).

(** Modelled from the spec: [is.read (buffer, n)], read [n] raw bytes into
    a buffer. *)
Definition stream_read (s : istream) (m : mem) (buffer : address) (n : N)
  : outcome (mem * istream) :=
  if remaining s <? n then Undefined StreamEnd
  else if n =? 0 then Done (m, s)
  else if buffer =? NULL then Undefined NullAccess
  else Done (store_bytes m buffer (peek s n), advance s n).

(** Modelled from the spec: [is.skip (n)], skip [n] bytes. *)
Definition stream_skip (s : istream) (n : N) : outcome istream :=
  if remaining s <? n then Undefined StreamEnd else Done (advance s n).

(** The least multiple of [g] that is not below [x]. *)
Definition align_up (x : N) (g : positive) : N :=
  (x + N.pos g - 1) / N.pos g * N.pos g.

(** Modelled from the spec: [is.align ()], align the cursor to the
    stream's boundary. *)
Definition stream_align (s : istream) : istream :=
  {| is_format := is_format s; is_data := is_data s;
     is_pos := align_up (is_pos s) (sf_grain (is_format s)) |}.

(** Little-endian value of a run of bytes, one possible [sf_decode]. *)
Definition le_decode (l : list byte) : N :=
  fold_right (fun b acc => Byte.to_N b + 256 * acc) 0 l.

(** ** The read-only base view *)

(** Modelled from the spec: cmemlink of cmemlink.h, the read-only base
    view, which tracks the triple (pointer, size, elementSize).  An element
    size is the size of a type and is never zero. *)
Record cmemlink : Type := {
  m_CData : address;
  m_Size : N;
  m_ElementSize : positive
}.

Module Base.

Section Construction.

(** The element size of the class whose object is being built. *)
Variable elem : positive.

(** Modelled from the spec: [cmemlink ()], the empty state: null pointer,
    size 0. *)
Definition empty : cmemlink :=
  {| m_CData := NULL; m_Size := 0; m_ElementSize := elem |}.

(** Modelled from the spec: [cmemlink (p, n)], which observes [n] bytes at
    [p]. *)
Definition make (p : address) (n : N) : cmemlink :=
  {| m_CData := p; m_Size := n; m_ElementSize := elem |}.

End Construction.

(** Modelled from the spec: [cmemlink (l)], a copy of the descriptor of
    [l]. *)
Definition copy (l : cmemlink) : cmemlink := l.

(** Modelled from the spec: [cmemlink::operator= (l)] replaces the
    descriptor entirely, without merging. *)
Definition assign (self l : cmemlink) : cmemlink := l.

(** Modelled from the spec: [cmemlink::swap (l)] exchanges the triples of
    the two views; the pair is ([*this], [l]) after the call. *)
Definition swap (self l : cmemlink) : cmemlink * cmemlink := (l, self).

(** Modelled from the spec: [cmemlink::link (p, n)] re-targets the view;
    [n] becomes the size unconditionally. *)
Definition link (self : cmemlink) (p : address) (n : N) : cmemlink :=
  {| m_CData := p; m_Size := n; m_ElementSize := m_ElementSize self |}.

(** Modelled from the spec: [cmemlink::unlink ()] returns the view to the
    empty state. *)
Definition unlink (self : cmemlink) : cmemlink :=
  {| m_CData := NULL; m_Size := 0; m_ElementSize := m_ElementSize self |}.

(** Modelled from the spec: [cmemlink::resize (n)] sets the size and
    nothing else. *)
Definition resize (self : cmemlink) (n : N) : cmemlink :=
  {| m_CData := m_CData self; m_Size := n; m_ElementSize := m_ElementSize self |}.

(** Modelled from the spec: [cmemlink::begin ()], the observed address. *)
Definition begin (self : cmemlink) : address := m_CData self.

End Base.

(** ** The mutable view *)

(** [class memlink : public cmemlink], with its one member [m_Data]. *)
Record memlink : Type := {
  base : cmemlink;
  m_Data : address
}.

(** Modelled from the spec: [size ()] and [elementSize ()], inherited from
    the base view. *)
Definition size (v : memlink) : N := m_Size (base v).
Definition elementSize (v : memlink) : N := N.pos (m_ElementSize (base v)).

(** Modelled from the spec: the accessors of memlink.h.  The mutable
    iterators run over the [size] bytes at [m_Data]. *)
Definition data (v : memlink) : address := m_Data v.
Definition begin (v : memlink) : address := m_Data v.
Definition end_ (v : memlink) : address := begin v + size v.
Definition distance (first last : address) : N := last - first.

Section Constructors.

Variable elem : positive.

(** [memlink::memlink (void)] *)
Definition memlink_empty : memlink :=
  {| base := Base.empty elem; m_Data := NULL |}.

(** [memlink::memlink (const void* p, size_t n)] *)
Definition memlink_of_const (p : address) (n : N) : memlink :=
  {| base := Base.make elem p n; m_Data := NULL |}.

(** [memlink::memlink (void* p, size_t n)] *)
Definition memlink_of_mutable (p : address) (n : N) : memlink :=
  {| base := Base.make elem p n; m_Data := p |}.

End Constructors.

(** [memlink::memlink (const cmemlink& l)] *)
Definition memlink_of_cmemlink (l : cmemlink) : memlink :=
  {| base := Base.copy l; m_Data := NULL |}.

(** [memlink::memlink (const memlink& l)] *)
Definition memlink_of_memlink (l : memlink) : memlink :=
  {| base := Base.copy (base l); m_Data := m_Data l |}.

(** [memlink::operator= (const cmemlink& l)] *)
Definition assign_cmemlink (v : memlink) (l : cmemlink) : memlink :=
  {| base := Base.assign (base v) l; m_Data := NULL |}.

(** [memlink::operator= (const memlink& l)] *)
Definition assign_memlink (v l : memlink) : memlink :=
  {| base := Base.assign (base v) (base l); m_Data := m_Data l |}.

(** [memlink::swap (memlink& l)]: the pair is ([*this], [l]) after the
    call. *)
Definition swap (v l : memlink) : memlink * memlink :=
  let '(bv, bl) := Base.swap (base v) (base l) in
  ({| base := bv; m_Data := m_Data l |}, {| base := bl; m_Data := m_Data v |}).

(** [memlink::link (void* p, size_t n)] *)
Definition link (v : memlink) (p : address) (n : N) : memlink :=
  {| base := Base.link (base v) p n; m_Data := p |}.

(** [memlink::unlink (void)] *)
Definition unlink (v : memlink) : memlink :=
  {| base := Base.unlink (base v); m_Data := NULL |}.

(** [resize (n)], inherited. *)
Definition resize (v : memlink) (n : N) : memlink :=
  {| base := Base.resize (base v) n; m_Data := m_Data v |}.

(** ** Operations on the viewed block *)

(** [memlink::read (istream& is)] *)
Definition read (v : memlink) (m : mem) (s : istream)
  : outcome (memlink * mem * istream) :=
  '(n, s) <- stream_read_size s ;;
  assert (n mod elementSize v =? 0) 108 ;;;
  let btr := N.min n (size v) in
  '(m, s) <- stream_read s m (data v) btr ;;
  let v := resize v btr in
  s <- stream_skip s (n - btr) ;;
  Done (v, m, stream_align s).

(** [memlink::copy (iterator start, const void* p, size_t n)] *)
Definition copy (v : memlink) (m : mem) (start p : address) (n : N)
  : outcome (memlink * mem) :=
  assert (nonzero (m_Data v) || negb (nonzero n)) 126 ;;;
  assert (nonzero p || negb (nonzero n)) 127 ;;;
  assert ((begin v <=? start) && (start + n <=? end_ v)) 128 ;;;
  assert (n mod elementSize v =? 0) 129 ;;;
  if nonzero p && nonzero n && negb (p =? m_Data v)
  then m <- memcpy m start p n ;; Done (v, m)
  else Done (v, m).

(** The loop of [fill]: [while (elCount--) { memcpy (start, p, elSize);
    start += elSize; }] *)
Fixpoint fill_loop (elCount : nat) (m : mem) (start p : address) (elSize : N)
  : outcome mem :=
  match elCount with
  | O => Done m
  | S elCount =>
      m <- memcpy m start p elSize ;;
      fill_loop elCount m (start + elSize) p elSize
  end.

(** [memlink::fill (iterator start, const void* p, size_t elSize,
    size_t elCount)] *)
Definition fill (v : memlink) (m : mem) (start p : address) (elSize elCount : N)
  : outcome (memlink * mem) :=
  assert (nonzero (m_Data v) || negb (nonzero elCount) || negb (nonzero elSize)) 143 ;;;
  assert ((begin v <=? start) && (start + size_t_mul elSize elCount <=? end_ v)) 144 ;;;
  assert (elSize mod elementSize v =? 0) 145 ;;;
  if elSize =? 1
  then
    c <- deref m p ;;
    m <- memset m start c elCount ;;
    Done (v, m)
  else
    m <- fill_loop (N.to_nat elCount) m start p elSize ;;
    Done (v, m).

(** [memlink::insert (iterator start, size_t n)] *)
Definition insert (v : memlink) (m : mem) (start : address) (n : N)
  : outcome (memlink * mem) :=
  assert (nonzero (m_Data v) || negb (nonzero n)) 160 ;;;
  assert (nonzero (Base.begin (base v)) || negb (nonzero n)) 161 ;;;
  assert ((begin v <=? start) && (start + n <=? end_ v)) 162 ;;;
  assert (n mod elementSize v =? 0) 163 ;;;
  assert (distance (begin v) start mod elementSize v =? 0) 164 ;;;
  let first := start in
  let last := end_ v in
  let middle := last - n in
  m <- rotate m first middle last ;;
  Done (v, m).

(** [memlink::erase (iterator start, size_t n)] *)
Definition erase (v : memlink) (m : mem) (start : address) (n : N)
  : outcome (memlink * mem) :=
  assert (nonzero (m_Data v) || negb (nonzero n)) 175 ;;;
  assert (nonzero (Base.begin (base v)) || negb (nonzero n)) 176 ;;;
  assert ((begin v <=? start) && (start + n <=? end_ v)) 177 ;;;
  assert (n mod elementSize v =? 0) 178 ;;;
  assert (distance (begin v) start mod elementSize v =? 0) 179 ;;;
  let first := start in
  let last := end_ v in
  let middle := first + n in
  m <- rotate m first middle last ;;
  Done (v, m).

(** [memlink::constructBlock (void* p, size_t n) const] *)
Definition constructBlock (v : memlink) (m : mem) (p : address) (n : N)
  : outcome mem :=
  assert (n mod elementSize v =? 0) 189 ;;;
  memset m p x00 n.

(** [memlink::destructBlock (void* p, size_t n) const], diagnostic build. *)
Definition destructBlock (v : memlink) (m : mem) (p : address) (n : N)
  : outcome mem :=
  assert (n mod elementSize v =? 0) 197 ;;;
  memset m p xcd n.

(** ** Vocabulary of the properties *)

(** What a rotation leaves at every address: inside [first, last) the
    bytes of [middle, last) come first and those of [first, middle)
    follow; outside nothing moves. *)
Definition rotated (m : mem) (first middle last : address) : mem :=
  fun a =>
    if (first <=? a) && (a <? last)
    then if a <? first + (last - middle)
         then m (a + (middle - first))
         else m (a - (last - middle))
    else m a.

(** The contract of [insert (start, n)] and of [erase (start, n)]: what
    their five assertions check. *)
Definition valid_shift (v : memlink) (start : address) (n : N) : Prop :=
  (m_Data v <> NULL \/ n = 0) /\
  (Base.begin (base v) <> NULL \/ n = 0) /\
  (begin v <= start /\ start + n <= end_ v) /\
  n mod elementSize v = 0 /\
  distance (begin v) start mod elementSize v = 0.

(** The effect of [fill] in the spec's words: [count] back-to-back copies
    of the pattern, written from [start] on. *)
Definition back_to_back_copies (m : mem) (start : address) (pattern : list byte)
  (count : nat) : mem :=
  store_bytes m start (concat (repeat pattern count)).

(** I1: the data pointer is null or is the address the base view
    observes. *)
Definition I1 (v : memlink) : Prop :=
  m_Data v = NULL \/ m_Data v = Base.begin (base v).

(** The states a view can reach: it is built by one of the five
    constructors, and changed by an assignment, [link], [unlink], [swap],
    or a call of [read], [copy], [fill], [insert] or [erase] that
    returns.  Views taken as arguments are reachable themselves. *)
Inductive reachable : memlink -> Prop :=
| reach_empty elem : reachable (memlink_empty elem)
| reach_of_const elem p n : reachable (memlink_of_const elem p n)
| reach_of_mutable elem p n : reachable (memlink_of_mutable elem p n)
| reach_of_cmemlink l : reachable (memlink_of_cmemlink l)
| reach_of_memlink l : reachable l -> reachable (memlink_of_memlink l)
| reach_assign_cmemlink v l : reachable v -> reachable (assign_cmemlink v l)
| reach_assign_memlink v l :
    reachable v -> reachable l -> reachable (assign_memlink v l)
| reach_swap_this v l : reachable v -> reachable l -> reachable (fst (swap v l))
| reach_swap_other v l : reachable v -> reachable l -> reachable (snd (swap v l))
| reach_link v p n : reachable v -> reachable (link v p n)
| reach_unlink v : reachable v -> reachable (unlink v)
| reach_read v m s v' m' s' :
    reachable v -> read v m s = Done (v', m', s') -> reachable v'
| reach_copy v m start p n v' m' :
    reachable v -> copy v m start p n = Done (v', m') -> reachable v'
| reach_fill v m start p elSize elCount v' m' :
    reachable v -> fill v m start p elSize elCount = Done (v', m') -> reachable v'
| reach_insert v m start n v' m' :
    reachable v -> insert v m start n = Done (v', m') -> reachable v'
| reach_erase v m start n v' m' :
    reachable v -> erase v m start n = Done (v', m') -> reachable v'.

(** A block of eight letters at address 100, for the examples. *)
Definition zeroed : mem := fun _ => x00.
Definition letters : mem :=
  store_bytes zeroed 100 [x41; x42; x43; x44; x45; x46; x47; x48].
Definition letters_view : memlink := memlink_of_mutable 1 100 8.

(** A stream with 8-byte little-endian integers and a 4-byte boundary,
    holding the length 6, six bytes of payload, two of padding and one
    more byte. *)
Definition example_format : stream_format :=
  {| sf_width := 8; sf_decode := le_decode; sf_grain := 4%positive |}.
Definition example_stream : istream :=
  {| is_format := example_format;
     is_data := [x06; x00; x00; x00; x00; x00; x00; x00;
                 x61; x62; x63; x64; x65; x66; x00; x00; x77];
     is_pos := 0 |}.

(** ** Facts about the memory primitives *)

Lemma nonzero_true (x : N) : nonzero x = true <-> x <> 0.
Proof.
  unfold nonzero. rewrite negb_true_iff. apply N.eqb_neq.
Qed.

Lemma nonzero_false (x : N) : nonzero x = false <-> x = 0.
Proof.
  unfold nonzero. rewrite negb_false_iff. apply N.eqb_eq.
Qed.

Lemma load_bytes_length (m : mem) (p : address) (n : nat) :
  length (load_bytes m p n) = n.
Proof.
  unfold load_bytes. now rewrite length_map, length_seq.
Qed.

Lemma nth_load_bytes (m : mem) (p : address) (n i : nat) (d : byte) :
  (i < n)%nat -> nth i (load_bytes m p n) d = m (p + N.of_nat i).
Proof.
  intros Hi. unfold load_bytes.
  rewrite (nth_indep _ d (m (p + N.of_nat 0))) by now rewrite length_map, length_seq.
  rewrite (map_nth (fun i => m (p + N.of_nat i))).
  now rewrite seq_nth.
Qed.

Lemma store_bytes_inside (m : mem) (p : address) (l : list byte) (a : address) :
  p <= a < p + N.of_nat (length l) ->
  store_bytes m p l a = nth (N.to_nat (a - p)) l x00.
Proof.
  intros [Hlo Hhi]. unfold store_bytes.
  apply N.leb_le in Hlo. apply N.ltb_lt in Hhi.
  now rewrite Hlo, Hhi.
Qed.

Lemma store_bytes_outside (m : mem) (p : address) (l : list byte) (a : address) :
  a < p \/ p + N.of_nat (length l) <= a ->
  store_bytes m p l a = m a.
Proof.
  intros H. unfold store_bytes.
  destruct (N.leb_spec p a), (N.ltb_spec a (p + N.of_nat (length l)));
    simpl; try reflexivity; lia.
Qed.

(** Position [i] of a list rotated left by [k]. *)
Lemma nth_rotated_list (l : list byte) (k i : nat) (d : byte) :
  (k <= length l)%nat -> (i < length l)%nat ->
  nth i (skipn k l ++ firstn k l) d =
  if (i <? length l - k)%nat then nth (i + k)%nat l d
  else nth (i - (length l - k))%nat l d.
Proof.
  intros Hk Hi.
  destruct (Nat.ltb_spec i (length l - k)) as [Hlt | Hge].
  - rewrite app_nth1 by (rewrite length_skipn; lia).
    rewrite nth_skipn. f_equal. lia.
  - rewrite app_nth2 by (rewrite length_skipn; lia).
    rewrite length_skipn, nth_firstn.
    destruct (Nat.ltb_spec (i - (length l - k)) k); [reflexivity | lia].
Qed.

Lemma rotate_spec (m : mem) (first middle last : address) :
  first <= middle <= last ->
  first <> NULL \/ first = middle \/ middle = last ->
  exists m', rotate m first middle last = Done m' /\
             forall a, m' a = rotated m first middle last a.
Proof.
  intros [Hfm Hml] Hnull. unfold rotate.
  destruct (N.eqb_spec first middle) as [-> | Hne1]; simpl.
  { exists m. split; [reflexivity |]. intros a. unfold rotated.
    destruct (N.leb_spec middle a), (N.ltb_spec a last); simpl; try reflexivity.
    destruct (N.ltb_spec a (middle + (last - middle))); [f_equal | ]; lia. }
  destruct (N.eqb_spec middle last) as [-> | Hne2]; simpl.
  { exists m. split; [reflexivity |]. intros a. unfold rotated.
    destruct (N.leb_spec first a), (N.ltb_spec a last); simpl; try reflexivity.
    destruct (N.ltb_spec a (first + (last - last))); [lia | f_equal; lia]. }
  destruct (N.eqb_spec first NULL) as [Hz | _].
  { destruct Hnull as [H | [H | H]]; contradiction. }
  eexists. split; [reflexivity |]. intros a.
  set (len := N.to_nat (last - first)).
  set (k := N.to_nat (middle - first)).
  set (l := load_bytes m first len).
  assert (Hlen : length l = len) by apply load_bytes_length.
  assert (Hrot : length (skipn k l ++ firstn k l) = len).
  { rewrite length_app, length_skipn, length_firstn, Hlen. subst len k. lia. }
  unfold rotated.
  destruct (N.leb_spec first a) as [Hlo | Hlo];
    [destruct (N.ltb_spec a last) as [Hhi | Hhi] |]; simpl.
  - rewrite store_bytes_inside by (rewrite Hrot; subst len; lia).
    rewrite nth_rotated_list by (rewrite Hlen; subst len k; lia).
    rewrite Hlen.
    destruct (Nat.ltb_spec (N.to_nat (a - first)) (len - k)) as [H1 | H1];
      destruct (N.ltb_spec a (first + (last - middle))) as [H2 | H2];
      try (subst len k; lia).
    + subst l. rewrite nth_load_bytes by (subst len k; lia).
      f_equal. subst k. lia.
    + subst l. rewrite nth_load_bytes by (subst len k; lia).
      f_equal. subst len k. lia.
  - apply store_bytes_outside. rewrite Hrot. subst len. lia.
  - apply store_bytes_outside. lia.
Qed.

(** ** Stepping through the assertions *)

Lemma assert_pass {B : Type} (cond : bool) (line : N) (k : outcome B) :
  cond = true -> (assert cond line ;;; k) = k.
Proof. intros ->. reflexivity. Qed.

Lemma assert_stop {B : Type} (cond : bool) (line : N) (k : outcome B) :
  cond = false -> (assert cond line ;;; k) = AssertFailed line.
Proof. intros ->. reflexivity. Qed.

(** Turns a condition of the code into the proposition it decides. *)
Ltac cond_prop :=
  rewrite ?orb_true_iff, ?andb_true_iff, ?negb_true_iff,
    ?nonzero_true, ?nonzero_false, ?N.leb_le, ?N.ltb_lt, ?N.eqb_eq.

Ltac unfold_view :=
  unfold end_, begin, data, distance, size, Base.begin, NULL in *.

Ltac pass := rewrite assert_pass by (cond_prop; unfold_view; first [assumption | lia | tauto]).

(** ** Construction and assignment *)

(** C7: assigning an immutable view [l], constructing from [l], and
    constructing from a const (pointer, length) pair all give a view whose
    base descriptor is the source's, whole, and whose data pointer is
    null; nothing of what the assigned view held before is left, a data
    pointer that was not null included. *)
Theorem immutable_source_strips_mutation
  (v : memlink) (l : cmemlink) (elem : positive) (p : address) (n : N) :
  (base (assign_cmemlink v l) = l /\ m_Data (assign_cmemlink v l) = NULL) /\
  (forall v', assign_cmemlink v' l = assign_cmemlink v l) /\
  (base (memlink_of_cmemlink l) = l /\ m_Data (memlink_of_cmemlink l) = NULL) /\
  (base (memlink_of_const elem p n) = Base.make elem p n /\
   m_Data (memlink_of_const elem p n) = NULL).
Proof.
  split; [| split; [| split]].
  - split; reflexivity.
  - intros v'. unfold assign_cmemlink, Base.assign. reflexivity.
  - split; reflexivity.
  - split; reflexivity.
Qed.

(** ** insert and erase *)

Lemma insert_rotated (v : memlink) (m : mem) (start : address) (n : N) :
  valid_shift v start n ->
  exists m', insert v m start n = Done (v, m') /\
             forall a, m' a = rotated m start (end_ v - n) (end_ v) a.
Proof.
  intros (Hd & Hc & [Hlo Hhi] & Hn & Hal). unfold insert.
  do 5 pass.
  destruct (rotate_spec m start (end_ v - n) (end_ v)) as (m' & Hr & Hm').
  - unfold_view. lia.
  - unfold_view. lia.
  - exists m'. now rewrite Hr.
Qed.

Lemma erase_rotated (v : memlink) (m : mem) (start : address) (n : N) :
  valid_shift v start n ->
  exists m', erase v m start n = Done (v, m') /\
             forall a, m' a = rotated m start (start + n) (end_ v) a.
Proof.
  intros (Hd & Hc & [Hlo Hhi] & Hn & Hal). unfold erase.
  do 5 pass.
  destruct (rotate_spec m start (start + n) (end_ v)) as (m' & Hr & Hm').
  - unfold_view. lia.
  - unfold_view. lia.
  - exists m'. now rewrite Hr.
Qed.

(** An element size of 1 puts no constraint on lengths and offsets. *)
Lemma valid_shift_bytes (v : memlink) (start : address) (n : N) :
  elementSize v = 1 ->
  m_Data v <> NULL \/ n = 0 ->
  Base.begin (base v) <> NULL \/ n = 0 ->
  begin v <= start -> start + n <= end_ v ->
  valid_shift v start n.
Proof.
  intros He Hd Hc Hlo Hhi. unfold valid_shift.
  rewrite He, !N.mod_1_r. tauto.
Qed.

(** Unfolds [rotated] at an address whose place in the range is known. *)
Ltac rotated_at :=
  unfold rotated;
  repeat match goal with
    | |- context [N.leb ?x ?y] => destruct (N.leb_spec x y); simpl
    | |- context [N.ltb ?x ?y] => destruct (N.ltb_spec x y); simpl
    end;
  try (f_equal; lia); try lia.

(** C2: with element size 1, a valid [insert (start, n)] leaves the bytes
    of [begin, start) where they are, moves the bytes of [start, end - n)
    up by [n] to [start + n, end), and returns the view as it was (same
    pointer, size and element size). *)
Theorem insert_opens_gap (v : memlink) (m : mem) (start : address) (n : N) :
  elementSize v = 1 ->
  m_Data v <> NULL \/ n = 0 ->
  Base.begin (base v) <> NULL \/ n = 0 ->
  begin v <= start -> start + n <= end_ v ->
  exists m', insert v m start n = Done (v, m') /\
             (forall a, begin v <= a < start -> m' a = m a) /\
             (forall a, start <= a < end_ v - n -> m' (a + n) = m a).
Proof.
  intros He Hd Hc Hlo Hhi.
  destruct (insert_rotated v m start n) as (m' & Hi & Hm');
    [now apply valid_shift_bytes |].
  exists m'. split; [exact Hi |]. split; intros a Ha; rewrite Hm'.
  - rotated_at.
  - rotated_at.
Qed.

Lemma insert_opens_gap_witness :
  exists m', insert letters_view letters 102 2 = Done (letters_view, m') /\
             (forall a, begin letters_view <= a < 102 -> m' a = letters a) /\
             (forall a, 102 <= a < end_ letters_view - 2 -> m' (a + 2) = letters a).
Proof.
  apply (insert_opens_gap letters_view letters 102 2).
  - reflexivity.
  - left. discriminate.
  - left. discriminate.
  - vm_compute. discriminate.
  - vm_compute. discriminate.
Defined.

(** C3: [erase (start, n)] undoes a valid [insert (start, n)] on the same
    view: every byte of the memory is back to its value before the insert,
    and the bytes that [erase] moves to the tail [end - n, end) are the
    ones [insert] had put at [start, start + n). *)
Theorem erase_undoes_insert (v : memlink) (m : mem) (start : address) (n : N) :
  valid_shift v start n ->
  exists m1 m2,
    insert v m start n = Done (v, m1) /\
    erase v m1 start n = Done (v, m2) /\
    (forall a, m2 a = m a) /\
    (forall a, start <= a < start + n -> m2 (a + (end_ v - n - start)) = m1 a).
Proof.
  intros Hv.
  destruct (insert_rotated v m start n Hv) as (m1 & Hi & Hm1).
  destruct (erase_rotated v m1 start n Hv) as (m2 & He & Hm2).
  destruct Hv as (_ & _ & [Hlo Hhi] & _ & _).
  exists m1, m2. split; [exact Hi |]. split; [exact He |]. split; intros a.
  - rewrite Hm2. unfold rotated at 1.
    destruct (N.leb_spec start a) as [H1 | H1];
      [destruct (N.ltb_spec a (end_ v)) as [H2 | H2] |]; simpl.
    + destruct (N.ltb_spec a (start + (end_ v - (start + n)))) as [H3 | H3];
        rewrite Hm1; rotated_at.
    + rewrite Hm1. rotated_at.
    + rewrite Hm1. rotated_at.
  - intros Ha. rewrite Hm2. rotated_at.
Qed.

Lemma erase_undoes_insert_witness :
  exists m1 m2,
    insert letters_view letters 102 2 = Done (letters_view, m1) /\
    erase letters_view m1 102 2 = Done (letters_view, m2) /\
    (forall a, m2 a = letters a) /\
    (forall a, 102 <= a < 102 + 2 -> m2 (a + (end_ letters_view - 2 - 102)) = m1 a).
Proof.
  apply (erase_undoes_insert letters_view letters 102 2).
  unfold valid_shift. repeat split.
  - left. discriminate.
  - left. discriminate.
  - vm_compute. discriminate.
  - vm_compute. discriminate.
Defined.

(** ** read *)

Lemma load_store_same (m : mem) (p : address) (l : list byte) :
  load_bytes (store_bytes m p l) p (length l) = l.
Proof.
  apply (nth_ext _ _ x00 x00).
  - apply load_bytes_length.
  - intros i Hi. rewrite load_bytes_length in Hi.
    rewrite nth_load_bytes by exact Hi.
    rewrite store_bytes_inside by lia.
    f_equal. lia.
Qed.

Lemma peek_length (s : istream) (n : N) :
  n <= remaining s -> length (peek s n) = N.to_nat n.
Proof.
  unfold remaining, peek. intros H.
  rewrite length_firstn, length_skipn. lia.
Qed.

Lemma peek_prefix (s : istream) (k n : N) :
  k <= n -> peek s k = firstn (N.to_nat k) (peek s n).
Proof.
  intros H. unfold peek. rewrite firstn_firstn. f_equal. lia.
Qed.

(** C1: once the serialized length [n] is read (a multiple of the element
    size, with its [n] bytes in the stream, and a view that can be written
    when there is something to read), [read] takes
    [btr = min (n, size)], stores exactly the first [btr] bytes of the
    payload at the data pointer and touches no other byte, sets the size to
    [btr], and leaves the cursor aligned after the whole payload of [n]
    bytes, however small the view is. *)
Theorem read_truncates (v : memlink) (m : mem) (s s1 : istream) (n : N) :
  stream_read_size s = Done (n, s1) ->
  n mod elementSize v = 0 ->
  n <= remaining s1 ->
  m_Data v <> NULL \/ N.min n (size v) = 0 ->
  let btr := N.min n (size v) in
  exists m',
    read v m s = Done (resize v btr, m', stream_align (advance s1 n)) /\
    load_bytes m' (data v) (N.to_nat btr) = firstn (N.to_nat btr) (peek s1 n) /\
    (forall a, a < data v \/ data v + btr <= a -> m' a = m a) /\
    size (resize v btr) = btr /\
    is_pos (stream_align (advance s1 n)) =
      align_up (is_pos s1 + n) (sf_grain (is_format s1)).
Proof.
  intros Hsize Hn Hrem Hdata btr.
  assert (Hbtr : btr <= n) by (subst btr; lia).
  assert (Hskip : stream_skip (advance s1 btr) (n - btr) = Done (advance s1 n)).
  { unfold stream_skip, remaining, advance in *. simpl.
    destruct (N.ltb_spec (N.of_nat (length (is_data s1)) - (is_pos s1 + btr)) (n - btr));
      [lia |].
    do 2 f_equal. lia. }
  unfold read. rewrite Hsize. cbn [bind]. pass. fold btr.
  unfold stream_read.
  destruct (N.ltb_spec (remaining s1) btr) as [Hlt | _]; [lia |].
  destruct (N.eqb_spec btr 0) as [H0 | Hpos].
  - exists m. cbn [bind]. rewrite H0 in *.
    replace (advance s1 0) with s1 in Hskip
      by (destruct s1; unfold advance; simpl; f_equal; lia).
    unfold stream_skip in *. rewrite N.sub_0_r in *.
    destruct (N.ltb_spec (remaining s1) n); [lia |]. cbn [bind].
    repeat split.
  - destruct (N.eqb_spec (data v) NULL) as [Hz | _].
    { unfold data in Hz. destruct Hdata; contradiction. }
    eexists. cbn [bind]. rewrite Hskip. cbn [bind].
    split; [reflexivity |]. split; [| split; [| split; reflexivity]].
    + rewrite <- (peek_prefix s1 btr n Hbtr).
      rewrite <- (peek_length s1 btr) at 1 by lia.
      apply load_store_same.
    + intros a Ha. apply store_bytes_outside.
      rewrite peek_length by lia. lia.
Qed.

Lemma read_truncates_witness :
  exists m',
    read (memlink_of_mutable 1 100 4) letters example_stream =
      Done (resize (memlink_of_mutable 1 100 4) 4, m',
            stream_align (advance (advance example_stream 8) 6)) /\
    load_bytes m' 100 4 = [x61; x62; x63; x64] /\
    (forall a, a < 100 \/ 100 + 4 <= a -> m' a = letters a) /\
    size (resize (memlink_of_mutable 1 100 4) 4) = 4 /\
    is_pos (stream_align (advance (advance example_stream 8) 6)) = 16.
Proof.
  apply (read_truncates (memlink_of_mutable 1 100 4) letters example_stream
           (advance example_stream 8) 6).
  - reflexivity.
  - reflexivity.
  - vm_compute. discriminate.
  - left. discriminate.
Defined.

(** ** copy *)

(** C10: [copy (start, p, 0)] with [start] within the bounds passes the
    four assertions whatever [p] and the data pointer are, null included,
    and returns the view and the memory as they were. *)
Theorem copy_nothing (v : memlink) (m : mem) (start p : address) :
  begin v <= start <= end_ v ->
  copy v m start p 0 = Done (v, m).
Proof.
  intros [Hlo Hhi]. unfold copy.
  pass. pass. pass.
  rewrite assert_pass by (rewrite N.Div0.mod_0_l; reflexivity).
  replace (nonzero 0) with false by reflexivity.
  now rewrite andb_false_r.
Qed.

Lemma copy_nothing_witness :
  copy (memlink_of_const 1 100 8) letters 0 NULL 0 =
  Done (memlink_of_const 1 100 8, letters).
Proof.
  apply (copy_nothing (memlink_of_const 1 100 8) letters 0 NULL).
  split; vm_compute; discriminate.
Defined.

(** What the guard of [copy] does on a call that passes the assertions:
    a source equal to the start of the block is never copied, wherever
    the destination is. *)
Lemma copy_skips_block_start (v : memlink) (m : mem) (start : address) (n : N) :
  m_Data v <> NULL \/ n = 0 ->
  begin v <= start -> start + n <= end_ v ->
  n mod elementSize v = 0 ->
  copy v m start (m_Data v) n = Done (v, m).
Proof.
  intros Hd Hlo Hhi Hn. unfold copy.
  do 4 pass.
  now rewrite N.eqb_refl, andb_false_r.
Qed.

(** C4: the guard of [copy] compares the source with the start of the
    block, not with the destination.  Copying the first four letters of
    the block over its last four, a source that differs from the
    destination and does not overlap it, passes the assertions and copies
    nothing, where [memcpy] would have written the letters. *)
Theorem copy_from_block_start_is_skipped :
  copy letters_view letters 104 100 4 = Done (letters_view, letters) /\
  load_bytes letters 100 4 = [x41; x42; x43; x44] /\
  load_bytes letters 104 4 = [x45; x46; x47; x48] /\
  exists m', memcpy letters 104 100 4 = Done m' /\
             load_bytes m' 104 4 = [x41; x42; x43; x44].
Proof.
  split; [reflexivity |]. split; [reflexivity |]. split; [reflexivity |].
  eexists. split; reflexivity.
Qed.

(** ** fill *)

(** C5, as the spec words it, fails: a view without a data pointer may be
    filled with zero copies of a one-byte pattern (pattern size 1 > 0);
    no assertion fails and the call returns with the memory untouched. *)
Lemma fill_null_data_counterexample :
  (m_Data (memlink_of_const 1 100 8) = NULL /\
   fill (memlink_of_const 1 100 8) letters 0 100 1 0 =
     Done (memlink_of_const 1 100 8, letters)) /\
  ~ (forall (v : memlink) (m : mem) (start p : address) (elSize elCount : N),
        m_Data v = NULL -> 0 < elCount \/ 0 < elSize ->
        exists line, fill v m start p elSize elCount = AssertFailed line).
Proof.
  split; [split; reflexivity |].
  intros H.
  destruct (H (memlink_of_const 1 100 8) letters 0 100 1 0) as [line Hl].
  - reflexivity.
  - right. reflexivity.
  - vm_compute in Hl. discriminate.
Qed.

(** C5, amended: a call of [fill] on a view whose data pointer is null
    fails the assertion of line 143 whenever both the repeat count and the
    pattern size are positive. *)
Theorem fill_null_data_asserts
  (v : memlink) (m : mem) (start p : address) (elSize elCount : N) :
  m_Data v = NULL -> 0 < elCount -> 0 < elSize ->
  fill v m start p elSize elCount = AssertFailed 143.
Proof.
  intros Hd Hc Hs. unfold fill.
  apply assert_stop.
  rewrite !orb_false_iff, !negb_false_iff, nonzero_false, !nonzero_true.
  unfold NULL in Hd. repeat split; [assumption | lia | lia].
Qed.

Lemma fill_null_data_asserts_witness :
  fill (memlink_of_const 1 100 8) letters 0 100 1 5 = AssertFailed 143.
Proof.
  apply (fill_null_data_asserts (memlink_of_const 1 100 8) letters 0 100 1 5).
  - reflexivity.
  - reflexivity.
  - reflexivity.
Defined.

Lemma size_t_mul_1_l (k : N) : k < 2 ^ size_t_bits -> size_t_mul 1 k = k.
Proof.
  intros H. unfold size_t_mul. rewrite N.mul_1_l. now apply N.mod_small.
Qed.

Lemma concat_repeat_singleton (c : byte) (k : nat) :
  concat (repeat [c] k) = repeat c k.
Proof.
  induction k as [| k IH]; simpl; [reflexivity | now rewrite IH].
Qed.

(** The single-byte branch of [fill] on a call that passes the
    assertions. *)
Lemma fill_byte_branch (v : memlink) (m : mem) (start p : address) (k : N) :
  k < 2 ^ size_t_bits ->
  m_Data v <> NULL \/ k = 0 ->
  begin v <= start -> start + k <= end_ v ->
  elementSize v = 1 ->
  fill v m start p 1 k =
  (c <- deref m p ;; m <- memset m start c k ;; Done (v, m)).
Proof.
  intros Hk Hd Hlo Hhi He. unfold fill.
  pass.
  rewrite assert_pass by (rewrite size_t_mul_1_l by exact Hk; cond_prop; tauto).
  rewrite assert_pass by (rewrite He; reflexivity).
  reflexivity.
Qed.

(** C6: a valid [fill (start, p, 1, k)] with a pattern pointer that is not
    null returns the memory that [k] back-to-back copies of the one-byte
    pattern at [p] give: the [k] bytes from [start] on all equal [*p], and
    no other byte changes. *)
Theorem fill_byte_is_general_fill (v : memlink) (m : mem) (start p : address) (k : N) :
  p <> NULL ->
  k < 2 ^ size_t_bits ->
  m_Data v <> NULL \/ k = 0 ->
  begin v <= start -> start + k <= end_ v ->
  elementSize v = 1 ->
  exists m',
    fill v m start p 1 k = Done (v, m') /\
    (forall a, m' a = back_to_back_copies m start (load_bytes m p 1) (N.to_nat k) a) /\
    (forall a, start <= a < start + k -> m' a = m p) /\
    (forall a, a < start \/ start + k <= a -> m' a = m a).
Proof.
  intros Hp Hk Hd Hlo Hhi He.
  rewrite (fill_byte_branch v m start p k Hk Hd Hlo Hhi He).
  unfold deref. destruct (N.eqb_spec p NULL) as [Hz | _]; [contradiction |].
  cbn [bind]. unfold back_to_back_copies, load_bytes. simpl map.
  rewrite N.add_0_r, concat_repeat_singleton.
  unfold memset. destruct (N.eqb_spec k 0) as [-> | Hk0].
  - exists m. cbn [bind]. split; [reflexivity |]. repeat split.
    + intros a. symmetry. apply store_bytes_outside. simpl. lia.
    + intros a Ha. lia.
  - destruct (N.eqb_spec start NULL) as [Hz | _].
    { unfold_view. lia. }
    eexists. cbn [bind]. split; [reflexivity |]. repeat split.
    + intros a Ha. rewrite store_bytes_inside by (rewrite repeat_length; lia).
      apply nth_repeat_lt. lia.
    + intros a Ha. apply store_bytes_outside. rewrite repeat_length. lia.
Qed.

Lemma fill_byte_is_general_fill_witness :
  exists m',
    fill letters_view letters 102 100 1 3 = Done (letters_view, m') /\
    (forall a, m' a = back_to_back_copies letters 102 (load_bytes letters 100 1)
                        (N.to_nat 3) a) /\
    (forall a, 102 <= a < 102 + 3 -> m' a = letters 100) /\
    (forall a, a < 102 \/ 102 + 3 <= a -> m' a = letters a).
Proof.
  apply (fill_byte_is_general_fill letters_view letters 102 100 3).
  - discriminate.
  - reflexivity.
  - left. discriminate.
  - vm_compute. discriminate.
  - vm_compute. discriminate.
  - reflexivity.
Defined.

Lemma memcpy_no_assert (m : mem) (dst src : address) (n line : N) :
  memcpy m dst src n <> AssertFailed line.
Proof.
  unfold memcpy.
  destruct (n =? 0); [discriminate |].
  destruct ((dst =? NULL) || (src =? NULL)); [discriminate |].
  destruct ((dst <? src + n) && (src <? dst + n)); discriminate.
Qed.

Lemma fill_loop_no_assert (elCount : nat) (m : mem) (start p : address)
  (elSize line : N) :
  fill_loop elCount m start p elSize <> AssertFailed line.
Proof.
  revert m start. induction elCount as [| c IH]; intros m start; simpl.
  - discriminate.
  - destruct (memcpy m start p elSize) as [m1 | l | f] eqn:Hc; cbn [bind].
    + apply IH.
    + now apply memcpy_no_assert in Hc.
    + discriminate.
Qed.

(** No assertion of [fill] looks at the pattern pointer: a call that
    fails one fails the same one with any other pattern pointer. *)
Lemma fill_assertions_ignore_pattern
  (v : memlink) (m : mem) (start p p' : address) (elSize elCount line : N) :
  fill v m start p elSize elCount = AssertFailed line ->
  fill v m start p' elSize elCount = AssertFailed line.
Proof.
  unfold fill, assert.
  destruct (nonzero (m_Data v) || negb (nonzero elCount) || negb (nonzero elSize));
    cbn [bind]; [| trivial].
  destruct ((begin v <=? start) && (start + size_t_mul elSize elCount <=? end_ v));
    cbn [bind]; [| trivial].
  destruct (elSize mod elementSize v =? 0); cbn [bind]; [| trivial].
  destruct (elSize =? 1).
  - unfold deref, memset.
    destruct (p =? NULL); cbn [bind]; [discriminate |].
    destruct (elCount =? 0); cbn [bind]; [discriminate |].
    destruct (start =? NULL); discriminate.
  - destruct (fill_loop (N.to_nat elCount) m start p elSize) as [m1 | l | f] eqn:Hl;
      cbn [bind]; try discriminate.
    now apply fill_loop_no_assert in Hl.
Qed.

(** C9: the assertions of [fill] say nothing of the pattern pointer, and
    the single-byte branch reads [*p] before it writes: a call
    [fill (start, p, 1, k)] fails the same assertion whatever [p] is, and
    one that passes the three assertions is undefined when [p] is null,
    also for [k = 0], and returns when [p] is not. *)
Theorem fill_byte_reads_pattern_first
  (v : memlink) (m : mem) (start p : address) (k : N) :
  k < 2 ^ size_t_bits ->
  m_Data v <> NULL \/ k = 0 ->
  begin v <= start -> start + k <= end_ v ->
  elementSize v = 1 ->
  (forall q line, fill v m start q 1 k = AssertFailed line ->
                  fill v m start p 1 k = AssertFailed line) /\
  (p = NULL -> fill v m start p 1 k = Undefined NullAccess) /\
  (p <> NULL -> exists m', fill v m start p 1 k = Done (v, m')).
Proof.
  intros Hk Hd Hlo Hhi He.
  split; [intros q line; apply fill_assertions_ignore_pattern |].
  rewrite (fill_byte_branch v m start p k Hk Hd Hlo Hhi He).
  split.
  - intros ->. reflexivity.
  - intros Hp. unfold deref.
    destruct (N.eqb_spec p NULL) as [Hz | _]; [contradiction |].
    cbn [bind]. unfold memset.
    destruct (N.eqb_spec k 0) as [-> | Hk0]; [now exists m |].
    destruct (N.eqb_spec start NULL) as [Hz | _]; [unfold_view; lia |].
    eexists. reflexivity.
Qed.

Lemma fill_byte_reads_pattern_first_witness :
  fill letters_view letters 100 NULL 1 0 = Undefined NullAccess.
Proof.
  apply (fill_byte_reads_pattern_first letters_view letters 100 NULL 0).
  - reflexivity.
  - right. reflexivity.
  - vm_compute. discriminate.
  - vm_compute. discriminate.
  - reflexivity.
  - reflexivity.
Defined.

(** ** The general branch of fill *)

Lemma store_bytes_app (m : mem) (p : address) (l1 l2 : list byte) (a : address) :
  store_bytes m p (l1 ++ l2) a =
  store_bytes (store_bytes m p l1) (p + N.of_nat (length l1)) l2 a.
Proof.
  unfold store_bytes. rewrite length_app.
  destruct (N.leb_spec p a) as [H1 | H1];
    destruct (N.ltb_spec a (p + N.of_nat (length l1 + length l2))) as [H2 | H2];
    destruct (N.leb_spec (p + N.of_nat (length l1)) a) as [H3 | H3];
    destruct (N.ltb_spec a (p + N.of_nat (length l1) + N.of_nat (length l2))) as [H4 | H4];
    destruct (N.ltb_spec a (p + N.of_nat (length l1))) as [H5 | H5];
    simpl; try lia; try reflexivity.
  - rewrite app_nth2 by lia. f_equal. lia.
  - apply app_nth1. lia.
Qed.

Lemma load_bytes_ext (m m' : mem) (p : address) (n : nat) :
  (forall a, p <= a < p + N.of_nat n -> m' a = m a) ->
  load_bytes m' p n = load_bytes m p n.
Proof.
  intros H. unfold load_bytes. apply map_ext_in.
  intros i Hi. apply in_seq in Hi. apply H. lia.
Qed.

(** The loop of [fill] writes the pattern back to back, when the pattern
    lies outside the bytes it writes. *)
Lemma fill_loop_copies (elCount : nat) (m : mem) (start p : address) (elSize : N) :
  elSize <> 0 -> p <> NULL -> start <> NULL ->
  p + elSize <= start \/ start + elSize * N.of_nat elCount <= p ->
  exists m',
    fill_loop elCount m start p elSize = Done m' /\
    forall a, m' a =
      back_to_back_copies m start (load_bytes m p (N.to_nat elSize)) elCount a.
Proof.
  intros He Hp. revert m start.
  induction elCount as [| c IH]; intros m start Hs Hfree.
  - exists m. split; [reflexivity |]. intros a.
    symmetry. apply store_bytes_outside. simpl. lia.
  - simpl fill_loop. unfold memcpy.
    destruct (N.eqb_spec elSize 0) as [Hz | _]; [contradiction |].
    destruct (N.eqb_spec start NULL) as [Hz | _]; [contradiction |].
    destruct (N.eqb_spec p NULL) as [Hz | _]; [contradiction |].
    simpl orb. cbv iota.
    destruct (N.ltb_spec start (p + elSize)) as [H1 | H1];
      destruct (N.ltb_spec p (start + elSize)) as [H2 | H2];
      simpl andb; cbv iota; try nia; cbn [bind].
    all: set (pat := load_bytes m p (N.to_nat elSize)).
    all: assert (Hlen : N.of_nat (length pat) = elSize)
      by (subst pat; rewrite load_bytes_length; lia).
    all: destruct (IH (store_bytes m start pat) (start + elSize)) as (m' & Hl & Hm');
      [unfold NULL in *; lia | nia |].
    all: exists m'; split; [exact Hl |]; intros a; rewrite Hm'.
    all: unfold back_to_back_copies; simpl repeat; simpl concat.
    all: rewrite store_bytes_app, Hlen.
    all: rewrite (load_bytes_ext m (store_bytes m start pat));
      [reflexivity | intros b Hb; apply store_bytes_outside; nia].
Qed.

(** ** Invariant I1 *)

(** Splits an equation [c = Done x] along the assertions and calls of
    [c]. *)
Ltac step_done H :=
  repeat match type of H with
    | bind (assert ?c ?l) _ = Done _ =>
        destruct c; cbn [bind assert] in H; [| discriminate H]
    | bind ?c _ = Done _ =>
        let E := fresh "E" in
        destruct c as [? | ? | ?] eqn:E; cbn [bind] in H;
        [| discriminate H | discriminate H]
    | (if ?c then _ else _) = Done _ => destruct c
    | (let '(_, _) := ?x in _) = Done _ => destruct x
    end.

Lemma copy_keeps_view v m start p n v' m' :
  copy v m start p n = Done (v', m') -> v' = v.
Proof.
  unfold copy. intros H. step_done H; congruence.
Qed.

Lemma fill_keeps_view v m start p elSize elCount v' m' :
  fill v m start p elSize elCount = Done (v', m') -> v' = v.
Proof.
  unfold fill. intros H. step_done H; congruence.
Qed.

Lemma insert_keeps_view v m start n v' m' :
  insert v m start n = Done (v', m') -> v' = v.
Proof.
  unfold insert. intros H. step_done H; congruence.
Qed.

Lemma erase_keeps_view v m start n v' m' :
  erase v m start n = Done (v', m') -> v' = v.
Proof.
  unfold erase. intros H. step_done H; congruence.
Qed.

Lemma read_resizes_view v m s v' m' s' :
  read v m s = Done (v', m', s') -> exists n, v' = resize v n.
Proof.
  unfold read. intros H. step_done H.
  injection H as <- _ _. eexists. reflexivity.
Qed.

(** C8: every reachable view satisfies I1: construction, assignment,
    [link], [unlink], [swap], [read], [copy], [fill], [insert] and [erase]
    all keep the data pointer null or equal to the observed address. *)
Theorem I1_invariant (v : memlink) : reachable v -> I1 v.
Proof.
  induction 1 as
    [ elem | elem p n | elem p n | l | l _ IH | v l _ _ | v l _ _ _ IHl
    | v l _ IHv _ IHl | v l _ IHv _ IHl | v p n _ _ | v _ _
    | v m s v' m' s' _ IH Hop | v m start p n v' m' _ IH Hop
    | v m start p es ec v' m' _ IH Hop | v m start n v' m' _ IH Hop
    | v m start n v' m' _ IH Hop ];
    unfold I1 in *; simpl.
  - now left.
  - now left.
  - now right.
  - now left.
  - exact IH.
  - now left.
  - exact IHl.
  - exact IHl.
  - exact IHv.
  - now right.
  - now left.
  - apply read_resizes_view in Hop as [k ->]. exact IH.
  - apply copy_keeps_view in Hop as ->. exact IH.
  - apply fill_keeps_view in Hop as ->. exact IH.
  - apply insert_keeps_view in Hop as ->. exact IH.
  - apply erase_keeps_view in Hop as ->. exact IH.
Qed.

Lemma I1_invariant_witness :
  I1 (snd (swap (link (memlink_empty 1) 100 8) (memlink_of_const 1 200 4))).
Proof.
  apply (I1_invariant
           (snd (swap (link (memlink_empty 1) 100 8) (memlink_of_const 1 200 4)))).
  apply reach_swap_other.
  - apply reach_link. apply reach_empty.
  - apply reach_of_const.
Defined.

(** ** Further properties of copy *)

(** Splits an equation [c = Done x] along the assertions of [c], and
    keeps what each assertion checked. *)
Ltac step_asserts H :=
  repeat match type of H with
    | bind (assert ?c ?l) _ = Done _ =>
        let A := fresh "A" in
        destruct c eqn:A; cbn [bind assert] in H; [| discriminate H]
    end.

Lemma memcpy_copies (m : mem) (dst src : address) (n : N) :
  n <> 0 -> dst <> NULL -> src <> NULL ->
  src + n <= dst \/ dst + n <= src ->
  memcpy m dst src n = Done (store_bytes m dst (load_bytes m src (N.to_nat n))).
Proof.
  intros Hn Hd Hs Hfree. unfold memcpy.
  destruct (N.eqb_spec n 0) as [? | _]; [contradiction |].
  destruct (N.eqb_spec dst NULL) as [? | _]; [contradiction |].
  destruct (N.eqb_spec src NULL) as [? | _]; [contradiction |].
  simpl orb. cbv iota.
  destruct (N.ltb_spec dst (src + n)); destruct (N.ltb_spec src (dst + n));
    simpl andb; cbv iota; try reflexivity; lia.
Qed.



Lemma load_store_length (m : mem) (p : address) (l : list byte) (k : nat) :
  length l = k -> load_bytes (store_bytes m p l) p k = l.
Proof.
  intros <-. apply load_store_same.
Qed.

Lemma copy_copies (v : memlink) (m : mem) (start p : address) (n : N) :
  m_Data v <> NULL -> p <> NULL -> 0 < n ->
  begin v <= start -> start + n <= end_ v ->
  n mod elementSize v = 0 ->
  p <> m_Data v ->
  p + n <= start \/ start + n <= p ->
  exists m',
    copy v m start p n = Done (v, m') /\
    load_bytes m' start (N.to_nat n) = load_bytes m p (N.to_nat n) /\
    (forall a, a < start \/ start + n <= a -> m' a = m a).
Proof.
  intros Hd Hp Hn Hlo Hhi Hal Hne Hfree. unfold copy.
  do 4 pass.
  replace (nonzero p) with true by (symmetry; apply nonzero_true; exact Hp).
  replace (nonzero n) with true by (symmetry; apply nonzero_true; lia).
  destruct (N.eqb_spec p (m_Data v)) as [? | _]; [contradiction |].
  simpl andb. cbv iota.
  rewrite memcpy_copies by (unfold_view; lia).
  cbn [bind]. eexists. split; [reflexivity |]. split.
  - apply load_store_length, load_bytes_length.
  - intros a Ha. apply store_bytes_outside. rewrite load_bytes_length. lia.
Qed.

(** X1: a copy from a source that is not null, is not the start of the
    block and does not overlap the destination puts the [n] source bytes
    at [start], changes no other byte and returns the view as it was. *)
Theorem copy_writes_source (v : memlink) (m : mem) (start p : address) (n : N) :
  m_Data v <> NULL -> p <> NULL -> 0 < n ->
  begin v <= start -> start + n <= end_ v ->
  n mod elementSize v = 0 ->
  p <> m_Data v ->
  p + n <= start \/ start + n <= p ->
  exists m',
    copy v m start p n = Done (v, m') /\
    load_bytes m' start (N.to_nat n) = load_bytes m p (N.to_nat n) /\
    (forall a, a < start \/ start + n <= a -> m' a = m a).
Proof.
  intros Hd Hp Hn Hlo Hhi Hal Hne Hfree. now apply copy_copies.
Qed.

Lemma copy_writes_source_witness :
  exists m',
    copy letters_view letters 104 102 2 = Done (letters_view, m') /\
    load_bytes m' 104 (N.to_nat 2) = load_bytes letters 102 (N.to_nat 2) /\
    (forall a, a < 104 \/ 104 + 2 <= a -> m' a = letters a).
Proof.
  apply (copy_writes_source letters_view letters 104 102 2).
  - discriminate.
  - discriminate.
  - reflexivity.
  - vm_compute. discriminate.
  - vm_compute. discriminate.
  - reflexivity.
  - discriminate.
  - left. vm_compute. discriminate.
Defined.



(** X3: a source equal to the start of the block is never copied,
    whatever the destination within the block: the call passes the
    assertions and returns the memory as it was. *)
Theorem copy_from_own_start_is_noop
  (v : memlink) (m : mem) (start : address) (n : N) :
  m_Data v <> NULL \/ n = 0 ->
  begin v <= start -> start + n <= end_ v ->
  n mod elementSize v = 0 ->
  copy v m start (m_Data v) n = Done (v, m).
Proof.
  intros Hd Hlo Hhi Hn. now apply copy_skips_block_start.
Qed.

Lemma copy_from_own_start_is_noop_witness :
  copy letters_view letters 106 (m_Data letters_view) 2 = Done (letters_view, letters).
Proof.
  apply (copy_from_own_start_is_noop letters_view letters 106 2).
  - left. discriminate.
  - vm_compute. discriminate.
  - vm_compute. discriminate.
  - reflexivity.
Defined.

(** X21: [copy] is no [memmove]: a source that overlaps the destination
    and is not the start of the block reaches [memcpy] with overlapping
    regions; this includes copying a range of the block onto itself at an
    offset. *)
Theorem copy_overlapping_is_undefined
  (v : memlink) (m : mem) (start p : address) (n : N) :
  m_Data v <> NULL -> p <> NULL -> 0 < n ->
  begin v <= start -> start + n <= end_ v ->
  n mod elementSize v = 0 ->
  p <> m_Data v ->
  start < p + n -> p < start + n ->
  copy v m start p n = Undefined Overlap.
Proof.
  intros Hd Hp Hn Hlo Hhi Hal Hne H1 H2. unfold copy.
  do 4 pass.
  replace (nonzero p) with true by (symmetry; apply nonzero_true; exact Hp).
  replace (nonzero n) with true by (symmetry; apply nonzero_true; lia).
  destruct (N.eqb_spec p (m_Data v)) as [? | _]; [contradiction |].
  simpl andb. cbv iota. unfold memcpy.
  destruct (N.eqb_spec n 0) as [? | _]; [lia |].
  destruct (N.eqb_spec start NULL) as [? | _]; [unfold_view; lia |].
  destruct (N.eqb_spec p NULL) as [? | _]; [contradiction |].
  simpl orb. cbv iota.
  destruct (N.ltb_spec start (p + n)); [| lia].
  destruct (N.ltb_spec p (start + n)); [| lia].
  reflexivity.
Qed.

Lemma copy_overlapping_is_undefined_witness :
  copy letters_view letters 104 104 4 = Undefined Overlap.
Proof.
  apply (copy_overlapping_is_undefined letters_view letters 104 104 4).
  - discriminate.
  - discriminate.
  - reflexivity.
  - vm_compute. discriminate.
  - vm_compute. discriminate.
  - reflexivity.
  - discriminate.
  - reflexivity.
  - reflexivity.
Defined.

(** ** Further properties of fill *)


Lemma fill_loop_empty_pattern (elCount : nat) (m : mem) (start p : address) :
  fill_loop elCount m start p 0 = Done m.
Proof.
  revert start. induction elCount as [| c IH]; intros start; simpl.
  - reflexivity.
  - unfold memcpy. simpl. apply IH.
Qed.

Lemma concat_repeat_length (pattern : list byte) (count : nat) :
  length (concat (repeat pattern count)) = (count * length pattern)%nat.
Proof.
  induction count as [| c IH]; simpl; [reflexivity |].
  rewrite length_app, IH. reflexivity.
Qed.

(** Byte [j] of copy [i] of the pattern. *)
Lemma nth_concat_repeat (pattern : list byte) (count i j : nat) (d : byte) :
  (i < count)%nat -> (j < length pattern)%nat ->
  nth (i * length pattern + j) (concat (repeat pattern count)) d = nth j pattern d.
Proof.
  revert i. induction count as [| c IH]; intros i Hi Hj; [lia |].
  simpl repeat. simpl concat. destruct i as [| i].
  - simpl. now apply app_nth1.
  - rewrite app_nth2 by (simpl; lia).
    replace (S i * length pattern + j - length pattern)%nat
      with (i * length pattern + j)%nat by (simpl; lia).
    apply IH; lia.
Qed.

(** X4: with a pattern of more than one byte that lies outside the bytes
    to fill, a valid [fill] writes [elCount] copies of the pattern back to
    back: byte [j] of copy [i] is byte [j] of the pattern; no other byte
    changes and the view is returned as it was. *)
Theorem fill_writes_pattern
  (v : memlink) (m : mem) (start p : address) (elSize elCount : N) :
  1 < elSize -> 0 < elCount ->
  elSize * elCount < 2 ^ size_t_bits ->
  m_Data v <> NULL -> p <> NULL ->
  begin v <= start -> start + elSize * elCount <= end_ v ->
  elSize mod elementSize v = 0 ->
  p + elSize <= start \/ start + elSize * elCount <= p ->
  exists m',
    fill v m start p elSize elCount = Done (v, m') /\
    (forall i j, i < elCount -> j < elSize ->
                 m' (start + i * elSize + j) = m (p + j)) /\
    (forall a, a < start \/ start + elSize * elCount <= a -> m' a = m a).
Proof.
  intros He Hc Hw Hd Hp Hlo Hhi Hal Hfree. unfold fill.
  pass.
  rewrite assert_pass
    by (unfold size_t_mul; rewrite N.mod_small by exact Hw; cond_prop; tauto).
  pass.
  destruct (N.eqb_spec elSize 1) as [? | _]; [lia |].
  destruct (fill_loop_copies (N.to_nat elCount) m start p elSize)
    as (m' & Hl & Hm').
  - lia.
  - exact Hp.
  - unfold_view. lia.
  - rewrite N2Nat.id. exact Hfree.
  - rewrite Hl. cbn [bind]. exists m'. split; [reflexivity |].
    set (pat := load_bytes m p (N.to_nat elSize)) in *.
    assert (Hlen : length pat = N.to_nat elSize) by apply load_bytes_length.
    split.
    + intros i j Hi Hj. rewrite Hm'. unfold back_to_back_copies.
      rewrite store_bytes_inside
        by (rewrite concat_repeat_length, Hlen; nia).
      replace (N.to_nat (start + i * elSize + j - start))
        with (N.to_nat i * length pat + N.to_nat j)%nat by (rewrite Hlen; nia).
      rewrite nth_concat_repeat by lia.
      subst pat. rewrite nth_load_bytes by lia. f_equal. lia.
    + intros a Ha. rewrite Hm'. unfold back_to_back_copies.
      apply store_bytes_outside. rewrite concat_repeat_length, Hlen. nia.
Qed.

Lemma fill_writes_pattern_witness :
  exists m',
    fill letters_view letters 102 100 2 3 = Done (letters_view, m') /\
    (forall i j, i < 3 -> j < 2 -> m' (102 + i * 2 + j) = letters (100 + j)) /\
    (forall a, a < 102 \/ 102 + 2 * 3 <= a -> m' a = letters a).
Proof.
  apply (fill_writes_pattern letters_view letters 102 100 2 3).
  - reflexivity.
  - reflexivity.
  - reflexivity.
  - discriminate.
  - discriminate.
  - vm_compute. discriminate.
  - vm_compute. discriminate.
  - reflexivity.
  - left. vm_compute. discriminate.
Defined.



(** X6: an empty pattern fills nothing: [fill (start, p, 0, elCount)] with
    [start] within the bounds passes the assertions and returns the
    memory as it was, for any count, pattern pointer and data pointer. *)
Theorem fill_empty_pattern (v : memlink) (m : mem) (start p : address) (elCount : N) :
  begin v <= start <= end_ v ->
  fill v m start p 0 elCount = Done (v, m).
Proof.
  intros [Hlo Hhi]. unfold fill.
  rewrite assert_pass by (now rewrite orb_true_r).
  rewrite assert_pass
    by (unfold size_t_mul; rewrite N.mul_0_l, N.Div0.mod_0_l, N.add_0_r;
        cond_prop; tauto).
  rewrite assert_pass by (rewrite N.Div0.mod_0_l; reflexivity).
  change (0 =? 1) with false. cbv iota.
  now rewrite fill_loop_empty_pattern.
Qed.

Lemma fill_empty_pattern_witness :
  fill (memlink_of_const 1 100 8) letters 0 NULL 0 5 =
  Done (memlink_of_const 1 100 8, letters).
Proof.
  apply (fill_empty_pattern (memlink_of_const 1 100 8) letters 0 NULL 5).
  split; vm_compute; discriminate.
Defined.

(** ** Further properties of insert and erase *)

(** X7: a valid [insert (start, n)], whatever the element size, puts the
    last [n] bytes of the block into the gap [start, start + n), moves the
    bytes of [start, end - n) up by [n], and changes no byte outside
    [start, end). *)
Theorem insert_contents (v : memlink) (m : mem) (start : address) (n : N) :
  valid_shift v start n ->
  exists m',
    insert v m start n = Done (v, m') /\
    (forall a, start <= a < start + n -> m' a = m (a + (end_ v - n - start))) /\
    (forall a, start + n <= a < end_ v -> m' a = m (a - n)) /\
    (forall a, a < start \/ end_ v <= a -> m' a = m a).
Proof.
  intros Hv.
  destruct (insert_rotated v m start n Hv) as (m' & Hi & Hm').
  destruct Hv as (_ & _ & [Hlo Hhi] & _ & _).
  exists m'. split; [exact Hi |].
  repeat split; intros a Ha; rewrite Hm'; rotated_at.
Qed.

Lemma insert_contents_witness :
  exists m',
    insert letters_view letters 102 2 = Done (letters_view, m') /\
    (forall a, 102 <= a < 102 + 2 -> m' a = letters (a + (end_ letters_view - 2 - 102))) /\
    (forall a, 102 + 2 <= a < end_ letters_view -> m' a = letters (a - 2)) /\
    (forall a, a < 102 \/ end_ letters_view <= a -> m' a = letters a).
Proof.
  apply (insert_contents letters_view letters 102 2).
  unfold valid_shift. repeat split.
  - left. discriminate.
  - left. discriminate.
  - vm_compute. discriminate.
  - vm_compute. discriminate.
Defined.

(** X8: a valid [erase (start, n)] moves the bytes of [start + n, end)
    down by [n], puts the [n] erased bytes at the tail [end - n, end), and
    changes no byte outside [start, end); the view keeps its size. *)
Theorem erase_contents (v : memlink) (m : mem) (start : address) (n : N) :
  valid_shift v start n ->
  exists m',
    erase v m start n = Done (v, m') /\
    (forall a, start <= a < end_ v - n -> m' a = m (a + n)) /\
    (forall a, end_ v - n <= a < end_ v -> m' a = m (a - (end_ v - n - start))) /\
    (forall a, a < start \/ end_ v <= a -> m' a = m a).
Proof.
  intros Hv.
  destruct (erase_rotated v m start n Hv) as (m' & He & Hm').
  destruct Hv as (_ & _ & [Hlo Hhi] & _ & _).
  exists m'. split; [exact He |].
  repeat split; intros a Ha; rewrite Hm'; rotated_at.
Qed.

Lemma erase_contents_witness :
  exists m',
    erase letters_view letters 102 2 = Done (letters_view, m') /\
    (forall a, 102 <= a < end_ letters_view - 2 -> m' a = letters (a + 2)) /\
    (forall a, end_ letters_view - 2 <= a < end_ letters_view ->
               m' a = letters (a - (end_ letters_view - 2 - 102))) /\
    (forall a, a < 102 \/ end_ letters_view <= a -> m' a = letters a).
Proof.
  apply (erase_contents letters_view letters 102 2).
  unfold valid_shift. repeat split.
  - left. discriminate.
  - left. discriminate.
  - vm_compute. discriminate.
  - vm_compute. discriminate.
Defined.

(** X9: [insert (start, n)] undoes a valid [erase (start, n)] on the same
    view: every byte of the memory is back to its value before the
    erase. *)
Theorem insert_undoes_erase (v : memlink) (m : mem) (start : address) (n : N) :
  valid_shift v start n ->
  exists m1 m2,
    erase v m start n = Done (v, m1) /\
    insert v m1 start n = Done (v, m2) /\
    (forall a, m2 a = m a).
Proof.
  intros Hv.
  destruct (erase_rotated v m start n Hv) as (m1 & He & Hm1).
  destruct (insert_rotated v m1 start n Hv) as (m2 & Hi & Hm2).
  destruct Hv as (_ & _ & [Hlo Hhi] & _ & _).
  exists m1, m2. split; [exact He |]. split; [exact Hi |]. intros a.
  rewrite Hm2. unfold rotated at 1.
  destruct (N.leb_spec start a) as [H1 | H1];
    [destruct (N.ltb_spec a (end_ v)) as [H2 | H2] |]; simpl.
  - destruct (N.ltb_spec a (start + (end_ v - (end_ v - n)))) as [H3 | H3];
      rewrite Hm1; rotated_at.
  - rewrite Hm1. rotated_at.
  - rewrite Hm1. rotated_at.
Qed.

Lemma insert_undoes_erase_witness :
  exists m1 m2,
    erase letters_view letters 102 2 = Done (letters_view, m1) /\
    insert letters_view m1 102 2 = Done (letters_view, m2) /\
    (forall a, m2 a = letters a).
Proof.
  apply (insert_undoes_erase letters_view letters 102 2).
  unfold valid_shift. repeat split.
  - left. discriminate.
  - left. discriminate.
  - vm_compute. discriminate.
  - vm_compute. discriminate.
Defined.





(** X11: inserting or erasing nothing, or the whole tail from [start] to
    the end, passes the assertions and moves no byte. *)
Theorem shift_of_nothing_or_all
  (v : memlink) (m : mem) (start : address) (n : N) :
  valid_shift v start n ->
  n = 0 \/ start + n = end_ v ->
  exists m1 m2,
    insert v m start n = Done (v, m1) /\
    erase v m start n = Done (v, m2) /\
    (forall a, m1 a = m a) /\ (forall a, m2 a = m a).
Proof.
  intros Hv Hn.
  destruct (insert_rotated v m start n Hv) as (m1 & Hi & Hm1).
  destruct (erase_rotated v m start n Hv) as (m2 & He & Hm2).
  destruct Hv as (_ & _ & [Hlo Hhi] & _ & _).
  exists m1, m2. split; [exact Hi |]. split; [exact He |].
  split; intros a; [rewrite Hm1 | rewrite Hm2]; rotated_at.
Qed.

Lemma shift_of_nothing_or_all_witness :
  exists m1 m2,
    insert letters_view letters 104 4 = Done (letters_view, m1) /\
    erase letters_view letters 104 4 = Done (letters_view, m2) /\
    (forall a, m1 a = letters a) /\ (forall a, m2 a = letters a).
Proof.
  apply (shift_of_nothing_or_all letters_view letters 104 4).
  - unfold valid_shift. repeat split.
    + left. discriminate.
    + left. discriminate.
    + vm_compute. discriminate.
    + vm_compute. discriminate.
  - right. reflexivity.
Defined.

Lemma load_bytes_app (m : mem) (p : address) (n1 n2 : nat) :
  load_bytes m p (n1 + n2) =
  load_bytes m p n1 ++ load_bytes m (p + N.of_nat n1) n2.
Proof.
  apply (nth_ext _ _ x00 x00).
  - now rewrite length_app, !load_bytes_length.
  - intros i Hi. rewrite load_bytes_length in Hi.
    rewrite nth_load_bytes by exact Hi.
    destruct (Nat.lt_ge_cases i n1) as [H1 | H1].
    + rewrite app_nth1 by now rewrite load_bytes_length.
      now rewrite nth_load_bytes.
    + rewrite app_nth2 by now rewrite load_bytes_length.
      rewrite load_bytes_length, nth_load_bytes by lia.
      f_equal. lia.
Qed.

(** Two memories that agree on two runs of bytes give the same list. *)
Lemma load_bytes_moved (m m' : mem) (p p' : address) (n : nat) :
  (forall i, i < N.of_nat n -> m' (p' + i) = m (p + i)) ->
  load_bytes m' p' n = load_bytes m p n.
Proof.
  intros H. unfold load_bytes. apply map_ext_in.
  intros i Hi. apply in_seq in Hi. apply H. lia.
Qed.

Lemma rotated_permutes (m m' : mem) (first middle last : address) :
  first <= middle <= last ->
  (forall a, m' a = rotated m first middle last a) ->
  Permutation (load_bytes m first (N.to_nat (last - first)))
              (load_bytes m' first (N.to_nat (last - first))).
Proof.
  intros [Hfm Hml] Hm'.
  replace (N.to_nat (last - first))
    with (N.to_nat (middle - first) + N.to_nat (last - middle))%nat at 1 by lia.
  replace (N.to_nat (last - first))
    with (N.to_nat (last - middle) + N.to_nat (middle - first))%nat by lia.
  rewrite !load_bytes_app, !N2Nat.id.
  replace (first + (middle - first)) with middle by lia.
  rewrite (load_bytes_moved m m' middle first)
    by (intros i Hi; rewrite Hm'; rotated_at).
  rewrite (load_bytes_moved m m' first (first + (last - middle)))
    by (intros i Hi; rewrite Hm'; rotated_at).
  apply Permutation_app_comm.
Qed.

(** X12: [insert] and [erase] only rearrange: after a valid call the
    bytes of the block are a permutation of the bytes it held before, so
    no value is lost or made up. *)
Theorem shift_permutes_block (v : memlink) (m : mem) (start : address) (n : N) :
  valid_shift v start n ->
  exists m1 m2,
    insert v m start n = Done (v, m1) /\
    erase v m start n = Done (v, m2) /\
    Permutation (load_bytes m (begin v) (N.to_nat (size v)))
                (load_bytes m1 (begin v) (N.to_nat (size v))) /\
    Permutation (load_bytes m (begin v) (N.to_nat (size v)))
                (load_bytes m2 (begin v) (N.to_nat (size v))).
Proof.
  intros Hv.
  destruct (insert_rotated v m start n Hv) as (m1 & Hi & Hm1).
  destruct (erase_rotated v m start n Hv) as (m2 & He & Hm2).
  destruct Hv as (_ & _ & [Hlo Hhi] & _ & _).
  exists m1, m2. split; [exact Hi |]. split; [exact He |].
  assert (Hsplit : N.to_nat (size v) =
            (N.to_nat (start - begin v) + N.to_nat (end_ v - start))%nat)
    by (unfold_view; lia).
  rewrite Hsplit, !load_bytes_app, !N2Nat.id.
  replace (begin v + (start - begin v)) with start by lia.
  split.
  - rewrite (load_bytes_moved m m1 (begin v) (begin v))
      by (intros i Hi'; rewrite Hm1; rotated_at).
    apply Permutation_app_head.
    apply (rotated_permutes m m1 start (end_ v - n) (end_ v)); [unfold_view; lia |].
    exact Hm1.
  - rewrite (load_bytes_moved m m2 (begin v) (begin v))
      by (intros i Hi'; rewrite Hm2; rotated_at).
    apply Permutation_app_head.
    apply (rotated_permutes m m2 start (start + n) (end_ v)); [unfold_view; lia |].
    exact Hm2.
Qed.

Lemma shift_permutes_block_witness :
  exists m1 m2,
    insert letters_view letters 102 2 = Done (letters_view, m1) /\
    erase letters_view letters 102 2 = Done (letters_view, m2) /\
    Permutation (load_bytes letters (begin letters_view) (N.to_nat (size letters_view)))
                (load_bytes m1 (begin letters_view) (N.to_nat (size letters_view))) /\
    Permutation (load_bytes letters (begin letters_view) (N.to_nat (size letters_view)))
                (load_bytes m2 (begin letters_view) (N.to_nat (size letters_view))).
Proof.
  apply (shift_permutes_block letters_view letters 102 2).
  unfold valid_shift. repeat split.
  - left. discriminate.
  - left. discriminate.
  - vm_compute. discriminate.
  - vm_compute. discriminate.
Defined.

(** ** Views without a data pointer *)

(** X13: a view whose data pointer is null (built from an immutable
    source, or unlinked) cannot be written through [copy], [insert] or
    [erase]: with [n > 0] each call fails its first assertion, whatever
    the other arguments are. *)
Theorem null_data_rejects_writes
  (v : memlink) (m : mem) (start p : address) (n : N) :
  m_Data v = NULL -> 0 < n ->
  copy v m start p n = AssertFailed 126 /\
  insert v m start n = AssertFailed 160 /\
  erase v m start n = AssertFailed 175.
Proof.
  intros Hd Hn.
  assert (Hc : nonzero (m_Data v) || negb (nonzero n) = false).
  { rewrite orb_false_iff, negb_false_iff, nonzero_false, nonzero_true.
    unfold NULL in Hd. split; [exact Hd | lia]. }
  unfold copy, insert, erase. now rewrite !assert_stop by exact Hc.
Qed.

Lemma null_data_rejects_writes_witness :
  copy (unlink letters_view) letters 100 104 2 = AssertFailed 126 /\
  insert (unlink letters_view) letters 100 2 = AssertFailed 160 /\
  erase (unlink letters_view) letters 100 2 = AssertFailed 175.
Proof.
  apply (null_data_rejects_writes (unlink letters_view) letters 100 104 2).
  - reflexivity.
  - reflexivity.
Defined.

(** X14: [read] has no assertion on the data pointer.  On a view whose
    data pointer is null and whose size is not zero, reading a block that
    is not empty writes through the null pointer. *)
Theorem read_into_null_data (v : memlink) (m : mem) (s s1 : istream) (n : N) :
  m_Data v = NULL ->
  stream_read_size s = Done (n, s1) ->
  n mod elementSize v = 0 ->
  0 < N.min n (size v) ->
  N.min n (size v) <= remaining s1 ->
  read v m s = Undefined NullAccess.
Proof.
  intros Hd Hsize Hn Hpos Hrem. unfold read.
  rewrite Hsize. cbn [bind]. pass.
  unfold stream_read, data. rewrite Hd.
  destruct (N.ltb_spec (remaining s1) (N.min n (size v))); [lia |].
  destruct (N.eqb_spec (N.min n (size v)) 0); [lia |].
  reflexivity.
Qed.

Lemma read_into_null_data_witness :
  read (memlink_of_const 1 100 8) letters example_stream = Undefined NullAccess.
Proof.
  apply (read_into_null_data (memlink_of_const 1 100 8) letters example_stream
           (advance example_stream 8) 6).
  - reflexivity.
  - reflexivity.
  - reflexivity.
  - reflexivity.
  - vm_compute. discriminate.
Defined.

(** X15: a call of [read] that returns read a length that is a multiple
    of the element size, never grew the view (the new size is the smaller
    of that length and the old size, the pointers are the same), and
    changed no byte outside the block as it was before the call. *)
Theorem read_stays_in_block
  (v v' : memlink) (m m' : mem) (s s' : istream) :
  read v m s = Done (v', m', s') ->
  exists n s1,
    stream_read_size s = Done (n, s1) /\
    n mod elementSize v = 0 /\
    v' = resize v (N.min n (size v)) /\
    size v' <= size v /\
    (forall a, a < begin v \/ end_ v <= a -> m' a = m a).
Proof.
  unfold read. intros H.
  destruct (stream_read_size s) as [[n s1] | l | f]; cbn [bind] in H;
    try discriminate.
  step_asserts H. apply N.eqb_eq in A.
  exists n, s1. split; [reflexivity |]. split; [exact A |].
  destruct (stream_read s1 m (data v) (N.min n (size v))) as [[m1 s2] | l | f] eqn:Hr;
    cbn [bind] in H; try discriminate.
  destruct (stream_skip s2 (n - N.min n (size v))) as [s3 | l | f];
    cbn [bind] in H; try discriminate.
  injection H as <- <- _.
  split; [reflexivity |].
  split; [unfold size, resize, Base.resize; cbn [base m_Size]; lia |].
  intros a Ha. unfold stream_read in Hr.
  destruct (remaining s1 <? N.min n (size v)); [discriminate |].
  destruct (N.min n (size v) =? 0); [now injection Hr as <- _ |].
  destruct (data v =? NULL); [discriminate |].
  injection Hr as <- _. apply store_bytes_outside.
  assert (length (peek s1 (N.min n (size v))) <= N.to_nat (N.min n (size v)))%nat
    by (unfold peek; apply firstn_le_length).
  unfold_view. lia.
Qed.

Lemma read_stays_in_block_witness :
  exists n s1,
    stream_read_size example_stream = Done (n, s1) /\
    n mod elementSize (memlink_of_mutable 1 100 4) = 0 /\
    resize (memlink_of_mutable 1 100 4) 4 =
      resize (memlink_of_mutable 1 100 4) (N.min n (size (memlink_of_mutable 1 100 4))) /\
    size (resize (memlink_of_mutable 1 100 4) 4) <= size (memlink_of_mutable 1 100 4) /\
    (forall a, a < begin (memlink_of_mutable 1 100 4) \/
               end_ (memlink_of_mutable 1 100 4) <= a ->
               store_bytes letters 100 (peek (advance example_stream 8) 4) a = letters a).
Proof.
  apply (read_stays_in_block (memlink_of_mutable 1 100 4)
           (resize (memlink_of_mutable 1 100 4) 4) letters
           (store_bytes letters 100 (peek (advance example_stream 8) 4))
           example_stream
           (stream_align (advance (advance (advance example_stream 8) 4) 2))).
  reflexivity.
Defined.

(** ** constructBlock and destructBlock *)

Lemma memset_fills (m : mem) (dst : address) (c : byte) (n : N) :
  dst <> NULL \/ n = 0 ->
  exists m',
    memset m dst c n = Done m' /\
    (forall a, dst <= a < dst + n -> m' a = c) /\
    (forall a, a < dst \/ dst + n <= a -> m' a = m a).
Proof.
  intros Hd. unfold memset.
  destruct (N.eqb_spec n 0) as [-> | Hn].
  - exists m. split; [reflexivity |]. split; [intros a Ha; lia | reflexivity].
  - destruct (N.eqb_spec dst NULL) as [Hz | _]; [destruct Hd; contradiction |].
    eexists. split; [reflexivity |]. split; intros a Ha.
    + rewrite store_bytes_inside by (rewrite repeat_length; lia).
      apply nth_repeat_lt. lia.
    + apply store_bytes_outside. rewrite repeat_length. lia.
Qed.

(** X16: [constructBlock (p, n)] fails its assertion when [n] is not a
    multiple of the element size; otherwise it zeroes exactly the [n]
    bytes at [p], wherever [p] points, and for [n = 0] changes nothing. *)
Theorem constructBlock_zeroes (v : memlink) (m : mem) (p : address) (n : N) :
  (n mod elementSize v <> 0 -> constructBlock v m p n = AssertFailed 189) /\
  (n mod elementSize v = 0 -> p <> NULL \/ n = 0 ->
   exists m',
     constructBlock v m p n = Done m' /\
     (forall a, p <= a < p + n -> m' a = x00) /\
     (forall a, a < p \/ p + n <= a -> m' a = m a)).
Proof.
  unfold constructBlock. split.
  - intros Hn. apply assert_stop. now apply N.eqb_neq.
  - intros Hn Hp. pass. now apply memset_fills.
Qed.

Lemma constructBlock_zeroes_witness :
  exists m',
    constructBlock letters_view letters 102 4 = Done m' /\
    (forall a, 102 <= a < 102 + 4 -> m' a = x00) /\
    (forall a, a < 102 \/ 102 + 4 <= a -> m' a = letters a).
Proof.
  apply (constructBlock_zeroes letters_view letters 102 4).
  - reflexivity.
  - left. discriminate.
Defined.

(** X17: in the diagnostic build [destructBlock (p, n)] fails its
    assertion when [n] is not a multiple of the element size; otherwise it
    writes the byte 0xCD over exactly the [n] bytes at [p] and nowhere
    else. *)
Theorem destructBlock_poisons (v : memlink) (m : mem) (p : address) (n : N) :
  (n mod elementSize v <> 0 -> destructBlock v m p n = AssertFailed 197) /\
  (n mod elementSize v = 0 -> p <> NULL \/ n = 0 ->
   exists m',
     destructBlock v m p n = Done m' /\
     (forall a, p <= a < p + n -> m' a = xcd) /\
     (forall a, a < p \/ p + n <= a -> m' a = m a)).
Proof.
  unfold destructBlock. split.
  - intros Hn. apply assert_stop. now apply N.eqb_neq.
  - intros Hn Hp. pass. now apply memset_fills.
Qed.

Lemma destructBlock_poisons_witness :
  exists m',
    destructBlock letters_view letters 102 4 = Done m' /\
    (forall a, 102 <= a < 102 + 4 -> m' a = xcd) /\
    (forall a, a < 102 \/ 102 + 4 <= a -> m' a = letters a).
Proof.
  apply (destructBlock_poisons letters_view letters 102 4).
  - reflexivity.
  - left. discriminate.
Defined.

(** ** Operations in sequence *)

(** X18: [insert (start, n)] followed by [copy (start, p, n)] from a
    source outside the block inserts the source bytes: they stand at
    [start, start + n), the bytes that were at [start, end - n) follow
    them, and every byte outside [start, end) is as before. *)
Theorem insert_then_copy (v : memlink) (m : mem) (start p : address) (n : N) :
  valid_shift v start n -> 0 < n ->
  p <> NULL -> p <> m_Data v ->
  p + n <= begin v \/ end_ v <= p ->
  exists m1 m2,
    insert v m start n = Done (v, m1) /\
    copy v m1 start p n = Done (v, m2) /\
    load_bytes m2 start (N.to_nat n) = load_bytes m p (N.to_nat n) /\
    (forall a, start + n <= a < end_ v -> m2 a = m (a - n)) /\
    (forall a, a < start \/ end_ v <= a -> m2 a = m a).
Proof.
  intros Hv Hn Hp Hne Hout.
  destruct (insert_rotated v m start n Hv) as (m1 & Hi & Hm1).
  destruct Hv as (Hd & _ & [Hlo Hhi] & Hal & _).
  destruct (copy_copies v m1 start p n) as (m2 & Hc & Hsrc & Hframe);
    try assumption; try lia.
  exists m1, m2. split; [exact Hi |]. split; [exact Hc |]. split; [| split].
  - rewrite Hsrc. apply load_bytes_ext.
    intros a Ha. rewrite Hm1. rewrite N2Nat.id in Ha. rotated_at.
  - intros a Ha. rewrite Hframe by lia. rewrite Hm1. rotated_at.
  - intros a Ha. rewrite Hframe by lia. rewrite Hm1. rotated_at.
Qed.

Lemma insert_then_copy_witness :
  exists m1 m2,
    insert letters_view letters 102 2 = Done (letters_view, m1) /\
    copy letters_view m1 102 200 2 = Done (letters_view, m2) /\
    load_bytes m2 102 (N.to_nat 2) = load_bytes letters 200 (N.to_nat 2) /\
    (forall a, 102 + 2 <= a < end_ letters_view -> m2 a = letters (a - 2)) /\
    (forall a, a < 102 \/ end_ letters_view <= a -> m2 a = letters a).
Proof.
  apply (insert_then_copy letters_view letters 102 200 2).
  - unfold valid_shift. repeat split.
    + left. discriminate.
    + left. discriminate.
    + vm_compute. discriminate.
    + vm_compute. discriminate.
  - reflexivity.
  - discriminate.
  - discriminate.
  - right. vm_compute. discriminate.
Defined.

(** ** Descriptors *)

(** X19: [swap] exchanges the two views whole, and swapping twice gives
    both views back. *)
Theorem swap_exchanges (v l : memlink) :
  swap v l = (l, v) /\
  swap (fst (swap v l)) (snd (swap v l)) = (v, l).
Proof.
  destruct v as [[cv sv ev] dv], l as [[cl sl el] dl]. split; reflexivity.
Qed.

(** X20: assigning or copy-constructing from a mutable view gives a view
    equal to the source, data pointer included, whatever the assigned
    view held; so a view with a data pointer keeps it through a copy. *)
Theorem mutable_source_keeps_mutation (v l : memlink) :
  assign_memlink v l = l /\
  memlink_of_memlink l = l /\
  (m_Data l <> NULL ->
   m_Data (assign_memlink v l) <> NULL /\ m_Data (memlink_of_memlink l) <> NULL).
Proof.
  destruct l as [[cl sl el] dl]. repeat split; assumption.
Qed.

Lemma mutable_source_keeps_mutation_witness :
  m_Data (assign_memlink (memlink_empty 1) letters_view) <> NULL /\
  m_Data (memlink_of_memlink letters_view) <> NULL.
Proof.
  apply (mutable_source_keeps_mutation (memlink_empty 1) letters_view).
  discriminate.
Defined.
